(** * ProjectFilesMonitor (client/project_files_monitor.py)

    A shallow embedding of the watchman subscriber that pyre's client uses
    to follow changes of project files, and the properties its description
    states about it.

    Python objects live in a store and are designated by their address;
    the methods are state transformers that end by returning, by leaving
    the process ([sys.exit]) or by raising. *)

From Stdlib Require Import Ascii String.
From stdpp Require Import gmap strings list fin_maps.

Local Open Scope string_scope.

(** ** Paths *)

Module Path.

Definition is_sep (c : ascii) : bool := Ascii.eqb c "/"%char.

Fixpoint drop_while (P : ascii → bool) (l : list ascii) : list ascii :=
  match l with
  | [] => []
  | c :: l' => if P c then drop_while P l' else l
  end.

(** [str.rstrip], for the characters that satisfy [P]. *)
Definition rstrip (P : ascii → bool) (l : list ascii) : list ascii :=
  rev (drop_while P (rev l)).

(** [posixpath.dirname]: the text up to the last separator, without its
    trailing separators unless it is made of separators only. *)
Definition dirname_chars (p : list ascii) : list ascii :=
  let head := rstrip (λ c, negb (is_sep c)) p in
  if forallb is_sep head then head else rstrip is_sep head.

Definition dirname (p : string) : string :=
  string_of_list_ascii (dirname_chars (list_ascii_of_string p)).

Definition ends_with_sep (p : string) : bool :=
  match rev (list_ascii_of_string p) with
  | c :: _ => is_sep c
  | [] => false
  end.

Definition starts_with_sep (p : string) : bool :=
  match p with
  | String c _ => is_sep c
  | EmptyString => false
  end.

(** [posixpath.join] of two components. *)
Definition join (a b : string) : string :=
  if starts_with_sep b then b
  else if String.eqb a "" || ends_with_sep a then a ++ b
  else a ++ "/" ++ b.

(** The [n]-th directory above [d]; [ancestor 0 d] is [d] itself. *)
Definition ancestor (n : nat) (d : string) : string := Nat.iter n dirname d.

End Path.

(** ** Values and objects *)

(** The values that are built into a watchman request or arrive in a
    watchman response: strings, lists and dictionaries with their entries
    in insertion order. *)
#[warnings="-register-all"]
Inductive json : Type :=
  | JStr (s : string)
  | JList (items : list json)
  | JDict (entries : list (string * json)).

(** [argparse.Namespace], as far as this module reads it. *)
Record Namespace : Type := { current_directory : string }.

(** Modelled from the spec: [Configuration] (client/configuration.py) is
    not among the sources; it exposes the ordered list of the additional
    file extensions to watch. *)
Record Configuration : Type := { extensions : list string }.

(** Modelled from the spec: [AnalysisDirectory] (client/filesystem.py) is
    not among the sources; this module hands it to the base class and
    stores it, and never looks inside. *)
Record AnalysisDirectory : Type := { get_root : string }.

(** Modelled from the spec: [Subscription] (client/watchman_subscriber.py)
    is not among the sources; a request bound to a root path and a name. *)
Record Subscription : Type :=
  { root : string; name : string; subscription : json }.

Abbreviation loc := nat (only parsing).

Record ProjectFilesMonitor : Type :=
  { _arguments : loc;
    _configuration : loc;
    _analysis_directory : AnalysisDirectory;
    _extensions : gset string;
    _watchman_path : option string }.

(** ** Logging *)

Inductive Level : Type := DEBUG | INFO | WARNING | ERROR | CRITICAL.

Inductive LogArg : Type :=
  | ArgStr (s : string)
  | ArgDict (d : gmap string json).

(** A [logging.LogRecord]: the message is kept with its arguments. *)
Record LogRecord : Type :=
  { levelname : Level; msg : string; args : list LogArg }.

(** ** The process *)

Record World : Type :=
  { files : gset string;
    namespaces : gmap loc Namespace;
    configurations : gmap loc Configuration;
    monitors : gmap loc ProjectFilesMonitor;
    lists : gmap loc (list Subscription);
    lru : option (loc * loc);
    log : list LogRecord }.

Definition with_configurations (c : gmap loc Configuration) (w : World) : World :=
  {| files := files w; namespaces := namespaces w; configurations := c;
     monitors := monitors w; lists := lists w; lru := lru w; log := log w |}.

Definition with_monitors (m : gmap loc ProjectFilesMonitor) (w : World) : World :=
  {| files := files w; namespaces := namespaces w;
     configurations := configurations w;
     monitors := m; lists := lists w; lru := lru w; log := log w |}.

Definition with_lists (l : gmap loc (list Subscription)) (w : World) : World :=
  {| files := files w; namespaces := namespaces w;
     configurations := configurations w;
     monitors := monitors w; lists := l; lru := lru w; log := log w |}.

Definition with_lru (c : option (loc * loc)) (w : World) : World :=
  {| files := files w; namespaces := namespaces w;
     configurations := configurations w;
     monitors := monitors w; lists := lists w; lru := c; log := log w |}.

Definition with_log (l : list LogRecord) (w : World) : World :=
  {| files := files w; namespaces := namespaces w;
     configurations := configurations w;
     monitors := monitors w; lists := lists w; lru := lru w; log := l |}.

(** How a call ends. *)
Inductive Outcome (A : Type) : Type :=
  | Returned (a : A)
  | Exited (status : Z)
  | Raised (exc : string).
Arguments Returned {A} a.
Arguments Exited {A} status.
Arguments Raised {A} exc.

Definition M (A : Type) : Type := World → Outcome A * World.

#[export] Instance M_ret : MRet M := λ A a w, (Returned a, w).

(** Sequencing stops at the first call that does not return. *)
#[export] Instance M_bind : MBind M := λ A B k c w,
  match c w with
  | (Returned a, w') => k a w'
  | (Exited s, w') => (Exited s, w')
  | (Raised e, w') => (Raised e, w')
  end.

(** [sys.exit(status)]. *)
Definition sys_exit {A} (status : Z) : M A := λ w, (Exited status, w).

(** [LOG.error(msg, *args)]. *)
Definition LOG_error (m : string) (a : list LogArg) : M unit :=
  λ w, (Returned tt,
        with_log (log w ++ [{| levelname := ERROR; msg := m; args := a |}]) w).

(** Attribute access on an object of the store. *)
Definition get_namespace (a : loc) : M Namespace :=
  λ w, match namespaces w !! a with
       | Some n => (Returned n, w)
       | None => (Raised "AttributeError", w)
       end.

Definition get_configuration (a : loc) : M Configuration :=
  λ w, match configurations w !! a with
       | Some c => (Returned c, w)
       | None => (Raised "AttributeError", w)
       end.

Definition get_monitor (a : loc) : M ProjectFilesMonitor :=
  λ w, match monitors w !! a with
       | Some m => (Returned m, w)
       | None => (Raised "AttributeError", w)
       end.

(** A new object gets an address that no object of its store has. *)
Definition new_monitor (m : ProjectFilesMonitor) : M loc :=
  λ w, let a := fresh (dom (monitors w)) in
       (Returned a, with_monitors (<[a := m]> (monitors w)) w).

Definition new_list (l : list Subscription) : M loc :=
  λ w, let a := fresh (dom (lists w)) in
       (Returned a, with_lists (<[a := l]> (lists w)) w).

(** ** The file system *)

Definition isfile (p : string) : M bool :=
  λ w, (Returned (bool_decide (p ∈ files w)), w).

(** Modelled from the spec: [find_root] (client/filesystem.py) is not among
    the sources.  It searches upward from the starting directory toward
    the root of the file system, stops at the first directory (the
    starting one included) that contains the target file, and gives
    [None] when there is none.  It does not raise. *)
Fixpoint find_root_from (fuel : nat) (current target : string) : M (option string) :=
  found ← isfile (Path.join current target);
  if (found : bool) then mret (Some current)
  else match fuel with
       | 0 => mret None
       | S fuel' =>
           let parent := Path.dirname current in
           if String.eqb current parent then mret None
           else find_root_from fuel' parent target
       end.

Definition find_root (original_directory target_file : string) : M (option string) :=
  find_root_from (String.length original_directory) original_directory target_file.

(** ** WatchmanSubscriber *)

(** Modelled from the spec: the base class (client/watchman_subscriber.py)
    is not among the sources; its constructor receives the analysis
    directory and has no effect that this module observes. *)
Definition WatchmanSubscriber__init__ (analysis_directory : AnalysisDirectory) : M unit :=
  mret tt.

(** [functools.lru_cache(1)] around a function of [self]: one entry for the
    whole process, keyed by the object; a call that does not return stores
    nothing. *)
Definition lru_store (self result : loc) : M unit :=
  λ w, (Returned tt, with_lru (Some (self, result)) w).

Definition lru_miss (f : loc → M loc) (self : loc) : M loc :=
  result ← f self;
  lru_store self result;;
  mret result.

(** The cached result for [self], when the entry is its own. *)
Definition lru_lookup (self : loc) (w : World) : option loc :=
  match lru w with
  | Some (key, result) => if decide (key = self) then Some result else None
  | None => None
  end.

Definition lru_cache_1 (f : loc → M loc) (self : loc) : M loc :=
  λ w, match lru_lookup self w with
       | Some result => (Returned result, w)
       | None => lru_miss f self w
       end.

(** ** ProjectFilesMonitor *)

Definition __init__ (arguments configuration : loc)
    (analysis_directory : AnalysisDirectory) : M loc :=
  WatchmanSubscriber__init__ analysis_directory ;;
  config ← get_configuration configuration;
  let extension_set : gset string :=
    list_to_set (["py"; "pyi"] ++ extensions config) in
  args ← get_namespace arguments;
  watchman_path ← find_root (current_directory args) ".watchmanconfig";
  new_monitor {| _arguments := arguments;
                 _configuration := configuration;
                 _analysis_directory := analysis_directory;
                 _extensions := extension_set;
                 _watchman_path := watchman_path |}.

Definition _name (self : loc) : M string :=
  mret "pyre_file_change_subscription".

(** [not x] for an [Optional[str]]: true of [None] and of the empty string. *)
Definition py_not (x : option string) : bool :=
  match x with
  | None => true
  | Some s => String.eqb s ""
  end.

Definition suffix_clause (extension : string) : json :=
  JList [JStr "suffix"; JStr extension].

(** The expression of lines 57 to 62.  The set is iterated in the one
    order of [elements]; Python leaves the order open, so the statements
    about requests speak of some list of the extensions without
    repetition, never of this order. *)
Definition expression (extension_set : gset string) : json :=
  JList [JStr "allof";
         JList [JStr "type"; JStr "f"];
         JList [JStr "not"; JStr "empty"];
         JList (JStr "anyof" :: map suffix_clause (elements extension_set))].

(** The function that [lru_cache] wraps. *)
Definition _subscriptions__wrapped__ (self : loc) : M loc :=
  this ← get_monitor self;
  (if py_not (_watchman_path this) then
     args ← get_namespace (_arguments this);
     LOG_error
       "Could not find a watchman directory from the current directory (%s)"
       [ArgStr (current_directory args)] ;;
     sys_exit 0
   else mret tt) ;;
  let request :=
    JDict [("expression", expression (_extensions this));
           ("fields", JList [JStr "name"])] in
  subscription_name ← _name self;
  (* past the test above the path is a string *)
  new_list [{| root := default "" (_watchman_path this);
               name := subscription_name;
               subscription := request |}].

Definition _subscriptions : loc → M loc := lru_cache_1 _subscriptions__wrapped__.

Definition _handle_response (self : loc) (response : gmap string json) : M unit :=
  LOG_error "Received response from watchman: %s" [ArgDict response].

(** ** What the rest of the program may do to the objects *)

(** [monitor._watchman_path = value]. *)
Definition set_watchman_path (self : loc) (value : option string) (w : World) : World :=
  with_monitors
    (alter (λ m, {| _arguments := _arguments m;
                    _configuration := _configuration m;
                    _analysis_directory := _analysis_directory m;
                    _extensions := _extensions m;
                    _watchman_path := value |}) self (monitors w)) w.

(** [configuration.extensions = value], or any change of that list in place. *)
Definition set_extensions (configuration : loc) (value : list string) (w : World) : World :=
  with_configurations
    (alter (λ _, {| extensions := value |}) configuration (configurations w)) w.

(** ** Runs of the operations a subscriber offers *)

Inductive Operation : Type :=
  | GetName
  | GetSubscriptions
  | HandleResponse (response : gmap string json)
  | SetExtensions (configuration : loc) (value : list string).

Definition perform (self : loc) (op : Operation) : M unit :=
  match op with
  | GetName => _name self;; mret tt
  | GetSubscriptions => _subscriptions self;; mret tt
  | HandleResponse response => _handle_response self response
  | SetExtensions configuration value =>
      λ w, (Returned tt, set_extensions configuration value w)
  end.

Fixpoint perform_all (self : loc) (ops : list Operation) : M unit :=
  match ops with
  | [] => mret tt
  | op :: ops' => perform self op;; perform_all self ops'
  end.

(** ** Vocabulary of the statements *)

(** Directory [d] holds a regular file called [target]. *)
Definition contains (w : World) (d target : string) : Prop :=
  Path.join d target ∈ files w.

(** [r] is the nearest directory at or above [d] that holds [target], or
    [None] when no such directory exists. *)
Definition nearest (w : World) (d target : string) (r : option string) : Prop :=
  match r with
  | Some a =>
      ∃ n, a = Path.ancestor n d ∧ contains w a target ∧
           ∀ k, k < n → ¬ contains w (Path.ancestor k d) target
  | None => ∀ n, ¬ contains w (Path.ancestor n d) target
  end.

Definition missing_root_record (directory : string) : LogRecord :=
  {| levelname := ERROR;
     msg := "Could not find a watchman directory from the current directory (%s)";
     args := [ArgStr directory] |}.

Definition response_record (response : gmap string json) : LogRecord :=
  {| levelname := ERROR;
     msg := "Received response from watchman: %s";
     args := [ArgDict response] |}.

(** ** Sample processes *)

Definition sample_arguments : Namespace :=
  {| current_directory := "/home/user/project/src" |}.

Definition sample_configuration : Configuration :=
  {| extensions := ["thrift"; "py"; "thrift"] |}.

Definition sample_directory : AnalysisDirectory := {| get_root := "/home/user/project" |}.

(** A process before any subscriber is built; the marker is two levels up. *)
Definition sample_process : World :=
  {| files := {[ "/home/user/.watchmanconfig" ]};
     namespaces := {[ 0 := sample_arguments ]};
     configurations := {[ 0 := sample_configuration ]};
     monitors := ∅;
     lists := ∅;
     lru := None;
     log := [] |}.

Definition sample_monitor (path : option string) : ProjectFilesMonitor :=
  {| _arguments := 0;
     _configuration := 0;
     _analysis_directory := sample_directory;
     _extensions := {[ "py"; "pyi"; "thrift" ]};
     _watchman_path := path |}.

(** A process with one subscriber, at address 0, whose watch root is [path]. *)
Definition process_with (path : option string) : World :=
  with_monitors {[ 0 := sample_monitor path ]} sample_process.

(** A process with two subscribers, at addresses 0 and 1. *)
Definition two_subscribers : World :=
  with_monitors {[ 0 := sample_monitor (Some "/home/user");
                   1 := sample_monitor (Some "/srv/other") ]} sample_process.

Definition after_first : World := snd (_subscriptions 0 two_subscribers).
Definition after_other : World := snd (_subscriptions 1 after_first).

(** ** Histories of a process *)

(** What a program does with subscribers, one step at a time: build one,
    read its name or its subscription list, hand it a notification, or
    assign to an attribute of a subscriber or of a configuration. *)
Inductive Step : Type :=
  | Construct (arguments configuration : loc) (analysis_directory : AnalysisDirectory)
  | ReadName (self : loc)
  | ReadSubscriptions (self : loc)
  | Notify (self : loc) (response : gmap string json)
  | AssignWatchmanPath (self : loc) (value : option string)
  | AssignExtensions (configuration : loc) (value : list string).

Definition step (s : Step) : M unit :=
  match s with
  | Construct arguments configuration analysis_directory =>
      __init__ arguments configuration analysis_directory;; mret tt
  | ReadName self => _name self;; mret tt
  | ReadSubscriptions self => _subscriptions self;; mret tt
  | Notify self response => _handle_response self response
  | AssignWatchmanPath self value =>
      λ w, (Returned tt, set_watchman_path self value w)
  | AssignExtensions configuration value =>
      λ w, (Returned tt, set_extensions configuration value w)
  end.

(** A history stops at the first step that does not return. *)
Fixpoint run (steps : list Step) : M unit :=
  match steps with
  | [] => mret tt
  | s :: steps' => step s;; run steps'
  end.

(** The notifications of a batch, handled one after the other. *)
Fixpoint handle_all (self : loc) (responses : list (gmap string json)) : M unit :=
  match responses with
  | [] => mret tt
  | response :: responses' =>
      _handle_response self response;; handle_all self responses'
  end.

(** The shape of every request this class builds. *)
Definition is_request (request : Subscription) : Prop :=
  root request ≠ "" ∧
  name request = "pyre_file_change_subscription" ∧
  ∃ watched,
    NoDup watched ∧
    subscription request =
    JDict [("expression",
            JList [JStr "allof";
                   JList [JStr "type"; JStr "f"];
                   JList [JStr "not"; JStr "empty"];
                   JList (JStr "anyof" :: map suffix_clause watched)]);
           ("fields", JList [JStr "name"])].

(** The cache entry, when there is one, is about a subscriber and a list
    that exist, and every list object holds exactly one request. *)
Definition Consistent (w : World) : Prop :=
  (∀ key result, lru w = Some (key, result) →
                 is_Some (monitors w !! key) ∧ is_Some (lists w !! result)) ∧
  (∀ a l, lists w !! a = Some l → ∃ request, l = [request] ∧ is_request request).

(** The four ways an access to the subscription list can go. *)
Inductive AccessCase (self : loc) (w : World) : Outcome loc * World → Prop :=
  | access_cached result :
      lru_lookup self w = Some result →
      AccessCase self w (Returned result, w)
  | access_raised exc :
      lru_lookup self w = None →
      AccessCase self w (Raised exc, w)
  | access_fatal this args :
      lru_lookup self w = None →
      monitors w !! self = Some this →
      py_not (_watchman_path this) = true →
      namespaces w !! _arguments this = Some args →
      AccessCase self w
        (Exited 0,
         with_log (log w ++ [missing_root_record (current_directory args)]) w)
  | access_computed this :
      lru_lookup self w = None →
      monitors w !! self = Some this →
      py_not (_watchman_path this) = false →
      AccessCase self w
        (Returned (fresh (dom (lists w))),
         with_lru (Some (self, fresh (dom (lists w))))
           (with_lists
              (<[fresh (dom (lists w)) :=
                   [{| root := default "" (_watchman_path this);
                       name := "pyre_file_change_subscription";
                       subscription :=
                         JDict [("expression", expression (_extensions this));
                                ("fields", JList [JStr "name"])] |}]]> (lists w)) w)).

(** The request that lines 56 to 65 build for a subscriber.  The clauses
    of its anyof come in the order in which the set is iterated, which
    Python leaves open: [watched] is any list of the extensions without
    repetition. *)
Definition request_of (this : ProjectFilesMonitor) (request : Subscription) : Prop :=
  ∃ path watched,
    _watchman_path this = Some path ∧
    NoDup watched ∧
    (∀ e, e ∈ watched ↔ e ∈ _extensions this) ∧
    request =
    {| root := path;
       name := "pyre_file_change_subscription";
       subscription :=
         JDict [("expression",
                 JList [JStr "allof";
                        JList [JStr "type"; JStr "f"];
                        JList [JStr "not"; JStr "empty"];
                        JList (JStr "anyof" :: map suffix_clause watched)]);
                ("fields", JList [JStr "name"])] |}.

(** The cache entry, when there is one, is the list that was computed for
    its subscriber as the subscriber is now. *)
Definition Coherent (w : World) : Prop :=
  ∀ key result,
    lru w = Some (key, result) →
    ∃ this request,
      monitors w !! key = Some this ∧
      lists w !! result = Some [request] ∧
      request_of this request.

(** The steps that write the watch root of a subscriber from outside the
    class. *)
Definition assigns_root (s : Step) : bool :=
  match s with
  | AssignWatchmanPath _ _ => true
  | _ => false
  end.

(** ** Proof steps *)

(** Opens the sequencing and the primitive actions of a method body. *)
Ltac run :=
  unfold mbind, M_bind, mret, M_ret, get_monitor, get_namespace,
    get_configuration, new_list, new_monitor, LOG_error, sys_exit, lru_store.

(** ** The definitions at work *)

Example dirname_nested : Path.dirname "/home/user/project" = "/home/user".
Proof. reflexivity. Qed.

Example dirname_top : Path.dirname "/home" = "/".
Proof. reflexivity. Qed.

Example dirname_root : Path.dirname "/" = "/".
Proof. reflexivity. Qed.

Example dirname_relative : Path.dirname "a/b" = "a" ∧ Path.dirname "a" = "".
Proof. split; reflexivity. Qed.

Example join_plain : Path.join "/home/user" ".watchmanconfig" = "/home/user/.watchmanconfig".
Proof. reflexivity. Qed.

Example join_root : Path.join "/" ".watchmanconfig" = "/.watchmanconfig".
Proof. reflexivity. Qed.

Example find_root_above :
  fst (find_root "/home/user/project/src" ".watchmanconfig" sample_process)
  = Returned (Some "/home/user").
Proof. reflexivity. Qed.

Example find_root_nowhere :
  fst (find_root "/srv/other" ".watchmanconfig" sample_process) = Returned None.
Proof. reflexivity. Qed.

(** ** Paths shrink on the way up *)

Section PathFacts.
Import Path.
Local Open Scope list_scope.

Lemma drop_while_suffix P l : ∃ k, l = k ++ drop_while P l.
Proof.
  induction l as [|c l IH]; simpl.
  - by exists [].
  - destruct (P c).
    + destruct IH as [k Hk]. exists (c :: k). simpl. by f_equal.
    + by exists [].
Qed.

Lemma rstrip_prefix P l : ∃ k, l = rstrip P l ++ k.
Proof.
  unfold rstrip.
  destruct (drop_while_suffix P (rev l)) as [k Hk].
  exists (rev k).
  rewrite <- rev_app_distr, <- Hk. by rewrite rev_involutive.
Qed.

Lemma dirname_chars_prefix p : ∃ k, p = dirname_chars p ++ k.
Proof.
  unfold dirname_chars.
  destruct (rstrip_prefix (λ c, negb (is_sep c)) p) as [k1 Hk1].
  destruct (forallb is_sep _).
  - by exists k1.
  - destruct (rstrip_prefix is_sep (rstrip (λ c, negb (is_sep c)) p)) as [k2 Hk2].
    exists (k2 ++ k1). rewrite app_assoc, <- Hk2. exact Hk1.
Qed.

Lemma string_of_list_ascii_app l k :
  string_of_list_ascii (l ++ k) = string_of_list_ascii l +:+ string_of_list_ascii k.
Proof.
  induction l as [|c l IH]; [reflexivity|].
  simpl. rewrite IH. reflexivity.
Qed.

Lemma append_empty_r s : s +:+ "" = s.
Proof. induction s as [|c s IH]; [reflexivity|]. rewrite <- IH at 2. reflexivity. Qed.

Lemma length_append s t :
  String.length (s +:+ t) = (String.length s + String.length t)%nat.
Proof.
  induction s as [|c s IH]; [reflexivity|].
  change (S (String.length (s +:+ t)) = S (String.length s + String.length t)).
  by rewrite IH.
Qed.

Lemma dirname_prefix p : ∃ k, p = dirname p +:+ k.
Proof.
  destruct (dirname_chars_prefix (list_ascii_of_string p)) as [k Hk].
  exists (string_of_list_ascii k). unfold dirname.
  rewrite <- string_of_list_ascii_app, <- Hk.
  by rewrite string_of_list_ascii_of_string.
Qed.

Lemma dirname_length p : (String.length (dirname p) ≤ String.length p)%nat.
Proof.
  destruct (dirname_prefix p) as [k Hk].
  rewrite Hk at 2. rewrite length_append. lia.
Qed.

(** A step that does not shorten the path does not change it. *)
Lemma dirname_same_length p :
  String.length (dirname p) = String.length p → dirname p = p.
Proof.
  intros Hlen. destruct (dirname_prefix p) as [k Hk].
  assert (String.length k = 0) as Hk0.
  { rewrite Hk in Hlen at 2. rewrite length_append in Hlen. lia. }
  destruct k; [|discriminate].
  rewrite Hk at 2. by rewrite append_empty_r.
Qed.

Lemma dirname_shorter p :
  dirname p ≠ p → (String.length (dirname p) < String.length p)%nat.
Proof.
  intros Hne. pose proof (dirname_length p).
  destruct (decide (String.length (dirname p) = String.length p)) as [Heq|]; [|lia].
  by apply dirname_same_length in Heq.
Qed.

Lemma ancestor_S n d : ancestor (S n) d = ancestor n (dirname d).
Proof.
  unfold ancestor. induction n as [|n IH]; [done|].
  simpl in *. by rewrite IH.
Qed.

Lemma ancestor_fixed n d : dirname d = d → ancestor n d = d.
Proof.
  intros Hd. induction n as [|n IH]; [done|].
  by rewrite ancestor_S, Hd.
Qed.

End PathFacts.

(** ** The upward search *)

Section FindRoot.
Import Path.
Variable w : World.
Variable target : string.

Lemma find_root_from_unfold fuel current :
  find_root_from fuel current target w =
  if bool_decide (join current target ∈ files w) then (Returned (Some current), w)
  else match fuel with
       | 0 => (Returned None, w)
       | S fuel' =>
           if String.eqb current (dirname current) then (Returned None, w)
           else find_root_from fuel' (dirname current) target w
       end.
Proof.
  destruct fuel; simpl; unfold mbind, M_bind, isfile;
    destruct (bool_decide _); try reflexivity.
  by destruct (String.eqb _ _).
Qed.

(** The search neither raises nor touches the process. *)
Lemma find_root_from_returns fuel current :
  ∃ r, find_root_from fuel current target w = (Returned r, w).
Proof.
  revert current. induction fuel as [|fuel IH]; intros current;
    rewrite find_root_from_unfold; destruct (bool_decide _); eauto.
  destruct (String.eqb _ _); eauto.
Qed.

Lemma nearest_here current : contains w current target → nearest w current target (Some current).
Proof. intros Hc. exists 0. split_and!; [done|done|lia]. Qed.

Lemma nearest_top current :
  ¬ contains w current target → dirname current = current →
  nearest w current target None.
Proof. intros Hc Hfix n. by rewrite ancestor_fixed. Qed.

Lemma nearest_above current r :
  ¬ contains w current target →
  nearest w (dirname current) target r → nearest w current target r.
Proof.
  intros Hc. destruct r as [a|]; simpl.
  - intros (n & Ha & Hin & Hlt). exists (S n). rewrite ancestor_S.
    split_and!; [done|done|]. intros [|k] Hk; [done|].
    rewrite ancestor_S. apply Hlt. lia.
  - intros Hnone [|n]; [done|]. rewrite ancestor_S. apply Hnone.
Qed.

(** With fuel for every character of the path the search is complete. *)
Lemma find_root_from_nearest fuel current r :
  (String.length current ≤ fuel)%nat →
  find_root_from fuel current target w = (Returned r, w) →
  nearest w current target r.
Proof.
  revert current. induction fuel as [|fuel IH]; intros current Hlen;
    rewrite find_root_from_unfold; case_bool_decide as Hc.
  - intros [= <-]. by apply nearest_here.
  - intros [= <-]. apply nearest_top; [done|].
    destruct current; [reflexivity|simpl in Hlen; lia].
  - intros [= <-]. by apply nearest_here.
  - destruct (String.eqb_spec current (dirname current)) as [Heq|Hne].
    + intros [= <-]. by apply nearest_top.
    + intros Hrec. apply nearest_above; [done|]. apply IH; [|done].
      assert (dirname current ≠ current) as Hne' by congruence.
      apply dirname_shorter in Hne'. lia.
Qed.

Lemma find_root_nearest original :
  ∃ r, find_root original target w = (Returned r, w) ∧ nearest w original target r.
Proof.
  unfold find_root.
  destruct (find_root_from_returns (String.length original) original) as [r Hr].
  exists r. split; [done|]. by eapply find_root_from_nearest.
Qed.

End FindRoot.

(** ** Construction *)

Section Construction.
Variable w : World.
Variables arguments configuration : loc.
Variable analysis_directory : AnalysisDirectory.
Variable args : Namespace.
Variable config : Configuration.
Hypothesis Harguments : namespaces w !! arguments = Some args.
Hypothesis Hconfiguration : configurations w !! configuration = Some config.

(** The constructor adds one object to the store and changes nothing else. *)
Lemma init_result :
  ∃ r, nearest w (current_directory args) ".watchmanconfig" r ∧
    __init__ arguments configuration analysis_directory w =
    (Returned (fresh (dom (monitors w))),
     with_monitors
       (<[fresh (dom (monitors w)) :=
            {| _arguments := arguments;
               _configuration := configuration;
               _analysis_directory := analysis_directory;
               _extensions := list_to_set (["py"; "pyi"] ++ extensions config)%list;
               _watchman_path := r |}]> (monitors w)) w).
Proof.
  destruct (find_root_nearest w ".watchmanconfig" (current_directory args))
    as (r & Hfind & Hnear).
  exists r. split; [done|].
  unfold __init__, WatchmanSubscriber__init__, mbind, M_bind, mret, M_ret,
    get_configuration, get_namespace, new_monitor.
  by rewrite Hconfiguration, Harguments, Hfind.
Qed.

Lemma init_stores :
  ∃ self w' this r,
    __init__ arguments configuration analysis_directory w = (Returned self, w') ∧
    monitors w' !! self = Some this ∧
    _extensions this = list_to_set (["py"; "pyi"] ++ extensions config)%list ∧
    _watchman_path this = r ∧
    nearest w (current_directory args) ".watchmanconfig" r.
Proof.
  destruct init_result as (r & Hnear & Hinit).
  eexists _, _, _, r. split; [exact Hinit|].
  split; [apply lookup_insert_eq|]. by split_and!.
Qed.

End Construction.

(** C2. Construction stores, as the set of watched extensions, "py" and
    "pyi" together with the members of the configuration's list of extra
    extensions: a set, so without duplicates, and the same set for every
    list with the same members, whatever their order and repetitions. *)
Theorem init_extensions
    (w : World) (arguments configuration : loc)
    (analysis_directory : AnalysisDirectory)
    (args : Namespace) (config : Configuration) :
  namespaces w !! arguments = Some args →
  configurations w !! configuration = Some config →
  ∃ self w' this,
    __init__ arguments configuration analysis_directory w = (Returned self, w') ∧
    monitors w' !! self = Some this ∧
    _extensions this = {[ "py"; "pyi" ]} ∪ list_to_set (extensions config) ∧
    NoDup (elements (_extensions this)) ∧
    ∀ L' : list string,
      (∀ x, x ∈ L' ↔ x ∈ extensions config) →
      _extensions this = {[ "py"; "pyi" ]} ∪ list_to_set L'.
Proof.
  intros Ha Hc.
  destruct (init_stores w arguments configuration analysis_directory args config Ha Hc)
    as (self & w' & this & r & Hinit & Hthis & Hext & _).
  assert (_extensions this = {[ "py"; "pyi" ]} ∪ list_to_set (extensions config))
    as Hunion.
  { rewrite Hext, list_to_set_app_L. simpl. by rewrite (right_id_L ∅ (∪)). }
  exists self, w', this. split_and!; [done|done|done| |].
  - apply NoDup_elements.
  - intros L' HL'. rewrite Hunion. f_equal.
    apply set_eq. intros x. by rewrite !elem_of_list_to_set, HL'.
Qed.

(** C4. Construction stores as watch root the nearest directory, at or
    above arguments.current_directory, that holds ".watchmanconfig", and
    stores None when no directory on the way up holds it; it returns in
    both cases. *)
Theorem init_watchman_path
    (w : World) (arguments configuration : loc)
    (analysis_directory : AnalysisDirectory)
    (args : Namespace) (config : Configuration) :
  namespaces w !! arguments = Some args →
  configurations w !! configuration = Some config →
  ∃ self w' this,
    __init__ arguments configuration analysis_directory w = (Returned self, w') ∧
    monitors w' !! self = Some this ∧
    ((∃ n, contains w (Path.ancestor n (current_directory args)) ".watchmanconfig") →
     ∃ n, _watchman_path this = Some (Path.ancestor n (current_directory args)) ∧
          contains w (Path.ancestor n (current_directory args)) ".watchmanconfig" ∧
          ∀ k, k < n →
               ¬ contains w (Path.ancestor k (current_directory args)) ".watchmanconfig") ∧
    ((∀ n, ¬ contains w (Path.ancestor n (current_directory args)) ".watchmanconfig") →
     _watchman_path this = None).
Proof.
  intros Ha Hc.
  destruct (init_stores w arguments configuration analysis_directory args config Ha Hc)
    as (self & w' & this & r & Hinit & Hthis & _ & Hpath & Hnear).
  exists self, w', this. split_and!; [done|done| |].
  - intros [n Hn]. rewrite Hpath. destruct r as [a|]; simpl in Hnear.
    + destruct Hnear as (k & -> & Hin & Hlt). by exists k.
    + by destruct (Hnear n).
  - intros Hnone. rewrite Hpath. destruct r as [a|]; [|done].
    destruct Hnear as (k & -> & Hin & _). by destruct (Hnone k).
Qed.

(** ** The cache *)

Section Cache.
Variable f : loc → M loc.

Lemma lru_cache_hit self w r :
  lru_lookup self w = Some r → lru_cache_1 f self w = (Returned r, w).
Proof. intros H. unfold lru_cache_1. by rewrite H. Qed.

Lemma lru_cache_miss self w :
  lru_lookup self w = None → lru_cache_1 f self w = lru_miss f self w.
Proof. intros H. unfold lru_cache_1. by rewrite H. Qed.

Lemma lru_miss_returned self w r w' :
  f self w = (Returned r, w') →
  lru_miss f self w = (Returned r, with_lru (Some (self, r)) w').
Proof. intros H. unfold lru_miss. run. by rewrite H. Qed.

Lemma lru_miss_exited self w s w' :
  f self w = (Exited s, w') → lru_miss f self w = (Exited s, w').
Proof. intros H. unfold lru_miss. run. by rewrite H. Qed.

(** A call that returns leaves its result in the cache. *)
Lemma lru_cache_returned self w r w' :
  lru_cache_1 f self w = (Returned r, w') → lru_lookup self w' = Some r.
Proof.
  unfold lru_cache_1.
  destruct (lru_lookup self w) as [r0|] eqn:Hlook.
  - by intros [= <- <-].
  - unfold lru_miss. run.
    destruct (f self w) as [[r1| |] w1]; [|done|done].
    intros [= <- <-]. unfold lru_lookup. simpl. by rewrite decide_True.
Qed.

Lemma lru_lookup_ext self w1 w2 :
  lru w2 = lru w1 → lru_lookup self w2 = lru_lookup self w1.
Proof. unfold lru_lookup. by intros ->. Qed.

End Cache.

(** ** The function behind the subscription list *)

Lemma py_not_true x : py_not x = true ↔ x = None ∨ x = Some "".
Proof.
  destruct x as [s|]; simpl.
  - rewrite String.eqb_eq. split; [intros ->; by right|].
    by intros [|[= ->]].
  - split; [by left|done].
Qed.

Lemma py_not_false x : py_not x = false ↔ ∃ p, x = Some p ∧ p ≠ "".
Proof.
  destruct x as [s|]; simpl.
  - rewrite String.eqb_neq. split; [by exists s|].
    by intros (p & [= ->] & ?).
  - split; [done|]. by intros (p & ? & _).
Qed.

Section Wrapped.
Variables (w : World) (self : loc) (this : ProjectFilesMonitor).
Hypothesis Hthis : monitors w !! self = Some this.

Lemma wrapped_exits args :
  namespaces w !! _arguments this = Some args →
  py_not (_watchman_path this) = true →
  _subscriptions__wrapped__ self w =
  (Exited 0, with_log (log w ++ [missing_root_record (current_directory args)]) w).
Proof.
  intros Hargs Hnot. unfold _subscriptions__wrapped__. run.
  rewrite Hthis, Hnot. simpl. by rewrite Hargs.
Qed.

Lemma wrapped_returns :
  py_not (_watchman_path this) = false →
  _subscriptions__wrapped__ self w =
  (Returned (fresh (dom (lists w))),
   with_lists
     (<[fresh (dom (lists w)) :=
          [{| root := default "" (_watchman_path this);
              name := "pyre_file_change_subscription";
              subscription :=
                JDict [("expression", expression (_extensions this));
                       ("fields", JList [JStr "name"])] |}]]> (lists w)) w).
Proof.
  intros Hnot. unfold _subscriptions__wrapped__, _name. run.
  by rewrite Hthis, Hnot.
Qed.

End Wrapped.

(** ** The subscription list *)

Section Subscriptions.
Variables (w : World) (self : loc) (this : ProjectFilesMonitor).
Hypothesis Hthis : monitors w !! self = Some this.
Hypothesis Hmiss : lru_lookup self w = None.

Lemma subscriptions_exits args :
  namespaces w !! _arguments this = Some args →
  py_not (_watchman_path this) = true →
  _subscriptions self w =
  (Exited 0, with_log (log w ++ [missing_root_record (current_directory args)]) w).
Proof.
  intros Hargs Hnot. unfold _subscriptions.
  rewrite lru_cache_miss by done.
  apply lru_miss_exited. by apply (wrapped_exits w self this).
Qed.

Lemma subscriptions_returns :
  py_not (_watchman_path this) = false →
  _subscriptions self w =
  (Returned (fresh (dom (lists w))),
   with_lru (Some (self, fresh (dom (lists w))))
     (with_lists
        (<[fresh (dom (lists w)) :=
             [{| root := default "" (_watchman_path this);
                 name := "pyre_file_change_subscription";
                 subscription :=
                   JDict [("expression", expression (_extensions this));
                          ("fields", JList [JStr "name"])] |}]]> (lists w)) w)).
Proof.
  intros Hnot. unfold _subscriptions.
  rewrite lru_cache_miss by done.
  apply lru_miss_returned. by apply (wrapped_returns w self this).
Qed.

End Subscriptions.

(** C1. When the stored watch root is None, the first access to the
    subscription list adds exactly one record to the log, of level ERROR
    and with arguments.current_directory as its argument, and ends the
    process with status 0: the access does not return. *)
Theorem subscriptions_without_root
    (w : World) (self : loc) (this : ProjectFilesMonitor) (args : Namespace) :
  monitors w !! self = Some this →
  _watchman_path this = None →
  namespaces w !! _arguments this = Some args →
  lru_lookup self w = None →
  _subscriptions self w =
  (Exited 0,
   with_log (log w ++ [{| levelname := ERROR;
                          msg := "Could not find a watchman directory from the current directory (%s)";
                          args := [ArgStr (current_directory args)] |}]) w).
Proof.
  intros Hthis Hpath Hargs Hmiss.
  apply (subscriptions_exits w self this Hthis Hmiss args Hargs).
  by rewrite Hpath.
Qed.

(** C5, as amended. Once an access to the subscription list of a
    subscriber has returned, every later access to it returns the same
    list object and changes nothing (nothing is computed, logged or
    tested, whatever the watch root has become), as long as the single
    entry of the cache is still the one of this subscriber. *)
Theorem subscriptions_cached
    (w : World) (self result : loc) (w1 : World) :
  _subscriptions self w = (Returned result, w1) →
  ∀ w2 : World,
    lru w2 = lru w1 →
    _subscriptions self w2 = (Returned result, w2).
Proof.
  intros Hfirst w2 Hlru. unfold _subscriptions in *.
  apply lru_cache_hit.
  rewrite (lru_lookup_ext self w1 w2 Hlru).
  by eapply lru_cache_returned.
Qed.

(** C6. The notification handler adds exactly one record to the log, of
    level ERROR and with the notification as its argument, changes
    nothing else, and returns None. *)
Theorem handle_response_logs
    (w : World) (self : loc) (response : gmap string json) :
  _handle_response self response w =
  (Returned tt,
   with_log (log w ++ [{| levelname := ERROR;
                          msg := "Received response from watchman: %s";
                          args := [ArgDict response] |}]) w).
Proof. reflexivity. Qed.

(** C7. The subscription name is the same string for every subscriber
    and in every state of the process, and reading it changes nothing. *)
Theorem name_constant (w : World) (self : loc) :
  _name self w = (Returned "pyre_file_change_subscription", w).
Proof. reflexivity. Qed.

(** ** What the operations leave alone *)

Lemma wrapped_monitors self w :
  monitors (snd (_subscriptions__wrapped__ self w)) = monitors w.
Proof.
  unfold _subscriptions__wrapped__, _name. run.
  destruct (monitors w !! self) as [this|]; [|done].
  destruct (py_not (_watchman_path this)); [|done].
  simpl. by destruct (namespaces w !! _arguments this).
Qed.

Lemma subscriptions_monitors self w :
  monitors (snd (_subscriptions self w)) = monitors w.
Proof.
  unfold _subscriptions, lru_cache_1.
  destruct (lru_lookup self w); [done|].
  unfold lru_miss. run.
  pose proof (wrapped_monitors self w) as Hw.
  by destruct (_subscriptions__wrapped__ self w) as [[r| |] w'].
Qed.

Lemma perform_monitors self op w :
  monitors (snd (perform self op w)) = monitors w.
Proof.
  destruct op; simpl; try reflexivity.
  run. pose proof (subscriptions_monitors self w) as Hs.
  by destruct (_subscriptions self w) as [[r| |] w'].
Qed.

(** C10. No run of the operations of a subscriber (reading its name,
    reading its subscription list, handling notifications), interleaved
    with changes of the configuration's list of extensions, changes the
    object of the subscriber: its extension set, watch root, arguments and
    configuration stay what construction stored, and a new list of
    extensions in the configuration does not reach the watched set. *)
Theorem fields_unchanged (self : loc) (ops : list Operation) (w : World) :
  monitors (snd (perform_all self ops w)) !! self = monitors w !! self ∧
  ∀ configuration value,
    _extensions <$> monitors (set_extensions configuration value w) !! self =
    _extensions <$> monitors w !! self.
Proof.
  split; [|done].
  revert w. induction ops as [|op ops IH]; intros w; [done|].
  simpl. run.
  pose proof (perform_monitors self op w) as Hop.
  destruct (perform self op w) as [[[]| |] w']; simpl in *.
  - by rewrite IH, Hop.
  - by rewrite Hop.
  - by rewrite Hop.
Qed.

(** ** Instances *)

(** C1 at a subscriber without watch root. *)
Lemma subscriptions_without_root_sample :
  _subscriptions 0 (process_with None) =
  (Exited 0,
   with_log [{| levelname := ERROR;
                msg := "Could not find a watchman directory from the current directory (%s)";
                args := [ArgStr "/home/user/project/src"] |}] (process_with None)).
Proof.
  apply (subscriptions_without_root (process_with None) 0 (sample_monitor None)
           sample_arguments); reflexivity.
Defined.

(** C2 at the extra extensions thrift, py, thrift. *)
Lemma init_extensions_sample :
  ∃ self w' this,
    __init__ 0 0 sample_directory sample_process = (Returned self, w') ∧
    monitors w' !! self = Some this ∧
    _extensions this = {[ "py"; "pyi" ]} ∪ list_to_set ["thrift"; "py"; "thrift"] ∧
    NoDup (elements (_extensions this)) ∧
    ∀ L' : list string,
      (∀ x, x ∈ L' ↔ x ∈ ["thrift"; "py"; "thrift"]) →
      _extensions this = {[ "py"; "pyi" ]} ∪ list_to_set L'.
Proof.
  apply (init_extensions sample_process 0 0 sample_directory
           sample_arguments sample_configuration); reflexivity.
Defined.

(** C4 where the marker is two directories above the starting one. *)
Lemma init_watchman_path_sample :
  ∃ self w' this,
    __init__ 0 0 sample_directory sample_process = (Returned self, w') ∧
    monitors w' !! self = Some this ∧
    ((∃ n, contains sample_process (Path.ancestor n "/home/user/project/src")
             ".watchmanconfig") →
     ∃ n, _watchman_path this = Some (Path.ancestor n "/home/user/project/src") ∧
          contains sample_process (Path.ancestor n "/home/user/project/src")
            ".watchmanconfig" ∧
          ∀ k, k < n →
               ¬ contains sample_process (Path.ancestor k "/home/user/project/src")
                   ".watchmanconfig") ∧
    ((∀ n, ¬ contains sample_process (Path.ancestor n "/home/user/project/src")
             ".watchmanconfig") →
     _watchman_path this = None).
Proof.
  apply (init_watchman_path sample_process 0 0 sample_directory
           sample_arguments sample_configuration); reflexivity.
Defined.

(** C5 at a second access after the watch root has been taken away. *)
Lemma subscriptions_cached_sample :
  _subscriptions 0 (set_watchman_path 0 None after_first) =
  (Returned 0, set_watchman_path 0 None after_first).
Proof.
  apply (subscriptions_cached two_subscribers 0 0 after_first);
    [vm_compute; reflexivity | reflexivity].
Defined.

(** ** Where the description goes too far *)

(** Against C5: after the list of another subscriber has been computed,
    a later access to the first subscriber computes again: it returns a
    new list object, and tests the watch root again, so that it ends the
    process when the root has been taken away in between. *)
Lemma other_subscriber_evicts :
  fst (_subscriptions 0 two_subscribers) = Returned 0 ∧
  fst (_subscriptions 1 after_first) = Returned 1 ∧
  lists after_other !! 2 = None ∧
  fst (_subscriptions 0 after_other) = Returned 2 ∧
  is_Some (lists (snd (_subscriptions 0 after_other)) !! 2) ∧
  fst (_subscriptions 0 (set_watchman_path 0 None after_other)) = Exited 0.
Proof. split_and!; try (vm_compute; reflexivity). vm_compute. eauto. Qed.

(** ** Every access, case by case *)

Lemma access_case self w : AccessCase self w (_subscriptions self w).
Proof.
  destruct (lru_lookup self w) as [result|] eqn:Hlook.
  { unfold _subscriptions. rewrite (lru_cache_hit _ self w result Hlook).
    by constructor. }
  destruct (monitors w !! self) as [this|] eqn:Hthis.
  2:{ unfold _subscriptions. rewrite lru_cache_miss by done.
      unfold lru_miss, _subscriptions__wrapped__. run. rewrite Hthis.
      by constructor. }
  destruct (py_not (_watchman_path this)) eqn:Hnot.
  2:{ rewrite (subscriptions_returns w self this Hthis Hlook Hnot).
      by constructor. }
  destruct (namespaces w !! _arguments this) as [args|] eqn:Hargs.
  { rewrite (subscriptions_exits w self this Hthis Hlook args Hargs Hnot).
    by econstructor. }
  unfold _subscriptions. rewrite lru_cache_miss by done.
  unfold lru_miss, _subscriptions__wrapped__. run.
  rewrite Hthis, Hnot. simpl. rewrite Hargs. by constructor.
Qed.

Lemma lru_lookup_Some self w result :
  lru_lookup self w = Some result ↔ lru w = Some (self, result).
Proof.
  unfold lru_lookup. destruct (lru w) as [[key r]|]; [|done].
  case_decide as Hkey.
  - subst key. split; by intros [= ->].
  - split; [done|]. intros [= -> ->]. done.
Qed.

(** X1. An access to the subscription list leaves the process in one way
    only: with status 0, on an access that the cache does not serve, for a
    subscriber whose watch root is None or empty; one record is added to
    the log and nothing else changes, so no list is built and the cache
    keeps what it had. *)
Theorem exit_inversion (w : World) (self : loc) (status : Z) (w1 : World) :
  _subscriptions self w = (Exited status, w1) →
  status = 0%Z ∧
  lru_lookup self w = None ∧
  ∃ this args,
    monitors w !! self = Some this ∧
    py_not (_watchman_path this) = true ∧
    namespaces w !! _arguments this = Some args ∧
    w1 = with_log (log w ++ [missing_root_record (current_directory args)]) w.
Proof.
  intros Hexit. pose proof (access_case self w) as Hcase.
  rewrite Hexit in Hcase. inversion Hcase; subst.
  split; [done|]. split; [done|]. by eexists _, _.
Qed.

(** X2. An access that returns has logged nothing and has changed no
    subscriber; its result is what the cache holds for this subscriber
    afterwards, and every list object that existed before is still there,
    unchanged. *)
Theorem return_inversion (w : World) (self result : loc) (w1 : World) :
  _subscriptions self w = (Returned result, w1) →
  log w1 = log w ∧
  monitors w1 = monitors w ∧
  lru w1 = Some (self, result) ∧
  ∀ a l, lists w !! a = Some l → lists w1 !! a = Some l.
Proof.
  intros Hret. pose proof (access_case self w) as Hcase.
  rewrite Hret in Hcase. inversion Hcase; subst.
  - split_and!; [done|done|by apply lru_lookup_Some|done].
  - split_and!; [done|done|done|].
    intros a l Hl. simpl. rewrite lookup_insert_ne; [done|].
    intros <-. pose proof (is_fresh (dom (lists w))) as Hfresh.
    apply Hfresh, elem_of_dom. eauto.
Qed.

(** X3. A failed access is not remembered: when the process goes on
    after the exit and the subscriber is accessed again, the test is made
    again and the error is logged a second time. *)
Theorem failure_not_cached
    (w : World) (self : loc) (this : ProjectFilesMonitor) (args : Namespace) :
  monitors w !! self = Some this →
  py_not (_watchman_path this) = true →
  namespaces w !! _arguments this = Some args →
  lru_lookup self w = None →
  _subscriptions self (snd (_subscriptions self w)) =
  (Exited 0,
   with_log (log w ++ [missing_root_record (current_directory args);
                       missing_root_record (current_directory args)]) w).
Proof.
  intros Hthis Hnot Hargs Hmiss.
  rewrite (subscriptions_exits w self this Hthis Hmiss args Hargs Hnot).
  cbn [snd].
  set (w1 := with_log (log w ++ [missing_root_record (current_directory args)]) w).
  rewrite (subscriptions_exits w1 self this Hthis Hmiss args Hargs Hnot).
  unfold w1, with_log. simpl. by rewrite <- app_assoc.
Qed.

(** X4. The cache holds one entry for all subscribers: once the list of
    another subscriber has been computed, the next access to this one
    computes again and returns a list object that did not exist before,
    different from the one just returned to the other. *)
Theorem other_access_evicts
    (w : World) (self other : loc) (this : ProjectFilesMonitor)
    (result : loc) (w1 : World) :
  self ≠ other →
  lru_lookup other w = None →
  _subscriptions other w = (Returned result, w1) →
  monitors w !! self = Some this →
  py_not (_watchman_path this) = false →
  lru_lookup self w1 = None ∧
  ∃ result2 w2,
    _subscriptions self w1 = (Returned result2, w2) ∧
    lists w1 !! result2 = None ∧
    is_Some (lists w2 !! result2) ∧
    result2 ≠ result.
Proof.
  intros Hne Hmiss Hret Hthis Hnot.
  pose proof (access_case other w) as Hcase.
  rewrite Hret in Hcase. inversion Hcase as [r Hhit| | |that _ Hthat Hnot']; subst.
  { congruence. }
  set (w1 := with_lru _ _) in *.
  assert (lru_lookup self w1 = None) as Hmiss1.
  { unfold lru_lookup. simpl. by rewrite decide_False by done. }
  split; [done|].
  eexists _, _. split; [by apply (subscriptions_returns w1 self this)|].
  assert (lists w1 !! fresh (dom (lists w1)) = None) as Hnew.
  { apply not_elem_of_dom, is_fresh. }
  split; [done|]. split.
  - simpl. rewrite lookup_insert_eq. eauto.
  - intros Heq. rewrite Heq in Hnew. simpl in Hnew.
    by rewrite lookup_insert_eq in Hnew.
Qed.

(** ** What every history keeps *)

Lemma fresh_lookup_ne {A} (m : gmap loc A) k x :
  m !! k = Some x → fresh (dom m) ≠ k.
Proof.
  intros Hk <-. apply (is_fresh (dom m)), elem_of_dom. eauto.
Qed.

Lemma init_frame arguments configuration analysis_directory w :
  lists (snd (__init__ arguments configuration analysis_directory w)) = lists w ∧
  lru (snd (__init__ arguments configuration analysis_directory w)) = lru w ∧
  log (snd (__init__ arguments configuration analysis_directory w)) = log w ∧
  ∀ k m, monitors w !! k = Some m →
         monitors (snd (__init__ arguments configuration analysis_directory w)) !! k
         = Some m.
Proof.
  unfold __init__, WatchmanSubscriber__init__. run.
  destruct (configurations w !! configuration) as [config|]; [|done].
  destruct (namespaces w !! arguments) as [args|]; [|done].
  destruct (find_root_nearest w ".watchmanconfig" (current_directory args))
    as (r & Hfind & _).
  rewrite Hfind. simpl. split_and!; [done|done|done|].
  intros k m Hk. rewrite lookup_insert_ne; [done|]. by eapply fresh_lookup_ne.
Qed.

Lemma Consistent_frame w w' :
  lru w' = lru w →
  lists w' = lists w →
  (∀ k, is_Some (monitors w !! k) → is_Some (monitors w' !! k)) →
  Consistent w → Consistent w'.
Proof.
  intros Hlru Hlists Hmon [Hcache Hshape]. split.
  - intros key result. rewrite Hlru, Hlists. intros Hentry.
    destruct (Hcache key result Hentry). split; [by apply Hmon|done].
  - by rewrite Hlists.
Qed.

Lemma computed_is_request this :
  py_not (_watchman_path this) = false →
  is_request {| root := default "" (_watchman_path this);
                name := "pyre_file_change_subscription";
                subscription :=
                  JDict [("expression", expression (_extensions this));
                         ("fields", JList [JStr "name"])] |}.
Proof.
  intros Hnot. apply py_not_false in Hnot as (path & Hpath & Hne).
  split_and!; simpl.
  - by rewrite Hpath.
  - done.
  - exists (elements (_extensions this)). split; [apply NoDup_elements|done].
Qed.

Lemma access_consistent self w :
  Consistent w → Consistent (snd (_subscriptions self w)).
Proof.
  intros Hw. destruct (access_case self w) as [r _|e _|this args _ _ _ _|this _ Hthis Hnot];
    simpl; try done.
  destruct Hw as [Hcache Hshape]. split; simpl.
  - intros key result [= <- <-]. split; [eauto|].
    rewrite lookup_insert_eq. eauto.
  - intros a l. destruct (decide (a = fresh (dom (lists w)))) as [->|Hne].
    + rewrite lookup_insert_eq. intros [= <-].
      eexists. split; [done|]. by apply computed_is_request.
    + rewrite lookup_insert_ne by done. apply Hshape.
Qed.

Lemma step_consistent s w : Consistent w → Consistent (snd (step s w)).
Proof.
  intros Hw. destruct s as [a c d|self|self|self response|self value|c value]; simpl.
  - run. destruct (init_frame a c d w) as (Hlists & Hlru & _ & Hmon).
    assert (Consistent (snd (__init__ a c d w))) as Hinit.
    { apply (Consistent_frame w); [done|done| |done].
      intros k [m Hk]. rewrite (Hmon k m Hk). eauto. }
    by destruct (__init__ a c d w) as [[r| |] w'].
  - done.
  - run. pose proof (access_consistent self w Hw) as Hacc.
    by destruct (_subscriptions self w) as [[r| |] w'].
  - by apply (Consistent_frame w).
  - apply (Consistent_frame w); [done|done| |done].
    intros k. simpl. rewrite lookup_alter. case_decide; [subst|done].
    intros [m ->]. simpl. eauto.
  - by apply (Consistent_frame w).
Qed.

(** X5. Through every history of constructions, reads, notifications
    and assignments, the cache entry (when there is one) is about a
    subscriber and a list object that exist, and every list object holds
    exactly one request, with a non-empty root, the subscription name, the
    fields ["name"] and an allof(type f, not empty, anyof(suffix clauses))
    expression without repeated clause. *)
Theorem run_consistent (steps : list Step) (w : World) :
  Consistent w → Consistent (snd (run steps w)).
Proof.
  revert w. induction steps as [|s steps IH]; intros w Hw; [done|].
  simpl. run. pose proof (step_consistent s w Hw) as Hs.
  destruct (step s w) as [[[]| |] w']; simpl in *; [by apply IH|done|done].
Qed.

(** X6. In a consistent process, whatever an access returns, computed
    or taken from the cache, is an existing list of exactly one request of
    that shape. *)
Theorem access_result_request (w : World) (self result : loc) (w1 : World) :
  Consistent w →
  _subscriptions self w = (Returned result, w1) →
  ∃ request, lists w1 !! result = Some [request] ∧ is_request request.
Proof.
  intros Hw Hret. pose proof (access_case self w) as Hcase.
  rewrite Hret in Hcase.
  inversion Hcase as [r Hhit| | |this _ Hthis Hnot]; subst.
  - destruct Hw as [Hcache Hshape].
    apply lru_lookup_Some in Hhit.
    destruct (Hcache self result Hhit) as [_ [l Hl]].
    destruct (Hshape result l Hl) as (request & -> & Hreq). eauto.
  - eexists. split; [simpl; apply lookup_insert_eq|].
    by apply computed_is_request.
Qed.

(** X7. A batch of notifications adds one record for each notification
    to the log, in the order of arrival, changes nothing else and
    returns. *)
Theorem handle_all_logs
    (self : loc) (responses : list (gmap string json)) (w : World) :
  handle_all self responses w =
  (Returned tt, with_log (log w ++ map response_record responses) w).
Proof.
  revert w. induction responses as [|response responses IH]; intros w.
  - destruct w. unfold with_log. simpl. by rewrite app_nil_r.
  - simpl. unfold _handle_response. run. rewrite IH. unfold with_log. simpl.
    by rewrite <- app_assoc.
Qed.

Lemma step_log_prefix s w : log w `prefix_of` log (snd (step s w)).
Proof.
  destruct s as [a c d|self|self|self response|self value|c value]; simpl;
    try done.
  - run. destruct (init_frame a c d w) as (_ & _ & Hlog & _).
    destruct (__init__ a c d w) as [[r| |] w']; simpl in *; by rewrite Hlog.
  - run. destruct (access_case self w); simpl; try done.
    by apply prefix_app_r.
  - by apply prefix_app_r.
Qed.

(** X8. No history removes or rewrites a log record: the log at the
    start is a prefix of the log at the end. *)
Theorem run_log_prefix (steps : list Step) (w : World) :
  log w `prefix_of` log (snd (run steps w)).
Proof.
  revert w. induction steps as [|s steps IH]; intros w; [done|].
  simpl. run. pose proof (step_log_prefix s w) as Hs.
  destruct (step s w) as [[[]| |] w']; simpl in *; [|done|done].
  etrans; [exact Hs|apply IH].
Qed.

(** ** Construction, then the first access *)



(** X11. The subscription list does not look at the configuration: an
    assignment to configuration.extensions after construction changes
    neither the outcome of an access nor what the access does to the
    process. *)
Theorem access_ignores_configuration
    (self configuration : loc) (value : list string) (w : World) :
  _subscriptions self (set_extensions configuration value w) =
  (fst (_subscriptions self w),
   set_extensions configuration value (snd (_subscriptions self w))).
Proof.
  unfold _subscriptions, lru_cache_1, lru_lookup, lru_miss,
    _subscriptions__wrapped__, _name. run. simpl.
  destruct (lru w) as [[key result]|]; [case_decide; [done|]|];
    (destruct (monitors w !! self) as [this|]; [|done];
     destruct (py_not (_watchman_path this)); [|done];
     simpl; by destruct (namespaces w !! _arguments this)).
Qed.

(** ** Further instances *)

(** X1 at a subscriber without watch root. *)
Lemma exit_inversion_sample :
  (0 = 0)%Z ∧
  lru_lookup 0 (process_with None) = None ∧
  ∃ this args,
    monitors (process_with None) !! 0 = Some this ∧
    py_not (_watchman_path this) = true ∧
    namespaces (process_with None) !! _arguments this = Some args ∧
    with_log [missing_root_record "/home/user/project/src"] (process_with None) =
    with_log (log (process_with None) ++ [missing_root_record (current_directory args)])
      (process_with None).
Proof.
  apply (exit_inversion (process_with None) 0 0
           (with_log [missing_root_record "/home/user/project/src"]
              (process_with None))).
  reflexivity.
Defined.

(** X2 at the first access of the process with two subscribers. *)
Lemma return_inversion_sample :
  log after_first = log two_subscribers ∧
  monitors after_first = monitors two_subscribers ∧
  lru after_first = Some (0, 0) ∧
  ∀ a l, lists two_subscribers !! a = Some l → lists after_first !! a = Some l.
Proof.
  apply (return_inversion two_subscribers 0 0 after_first).
  vm_compute. reflexivity.
Defined.

(** X3 at a subscriber without watch root. *)
Lemma failure_not_cached_sample :
  _subscriptions 0 (snd (_subscriptions 0 (process_with None))) =
  (Exited 0,
   with_log (log (process_with None) ++
             [missing_root_record "/home/user/project/src";
              missing_root_record "/home/user/project/src"]) (process_with None)).
Proof.
  apply (failure_not_cached (process_with None) 0 (sample_monitor None)
           sample_arguments); reflexivity.
Defined.

(** X4 in the process with two subscribers, after the first one was
    accessed. *)
Lemma other_access_evicts_sample :
  lru_lookup 0 after_other = None ∧
  ∃ result2 w2,
    _subscriptions 0 after_other = (Returned result2, w2) ∧
    lists after_other !! result2 = None ∧
    is_Some (lists w2 !! result2) ∧
    result2 ≠ 1.
Proof.
  apply (other_access_evicts after_first 0 1 (sample_monitor (Some "/home/user"))
           1 after_other);
    [discriminate | reflexivity | vm_compute; reflexivity
    | reflexivity | reflexivity].
Defined.

(** X5 along a history that builds a subscriber, reads its list and
    hands it a notification. *)
Lemma run_consistent_sample :
  Consistent
    (snd (run [Construct 0 0 sample_directory; ReadSubscriptions 0; Notify 0 ∅]
            sample_process)).
Proof.
  apply (run_consistent
           [Construct 0 0 sample_directory; ReadSubscriptions 0; Notify 0 ∅]
           sample_process).
  split; simpl.
  - intros key result Hentry. discriminate Hentry.
  - intros a l Hl. rewrite lookup_empty in Hl. discriminate Hl.
Defined.

(** X6 at a subscriber whose watch root is /home/user. *)
Lemma access_result_request_sample :
  ∃ request,
    lists (snd (_subscriptions 0 (process_with (Some "/home/user")))) !! 0
    = Some [request] ∧ is_request request.
Proof.
  apply (access_result_request (process_with (Some "/home/user")) 0 0
           (snd (_subscriptions 0 (process_with (Some "/home/user"))))).
  - split; simpl.
    + intros key result Hentry. discriminate Hentry.
    + intros a l Hl. rewrite lookup_empty in Hl. discriminate Hl.
  - vm_compute. reflexivity.
Defined.


(** ** Roots that construction resolves *)

Section AbsolutePaths.
Import Path.
Local Open Scope list_scope.

Lemma drop_while_last_kept P l c : P c = false → drop_while P (l ++ [c]) ≠ [].
Proof.
  intros Hc. induction l as [|x l IH]; simpl.
  - by rewrite Hc.
  - by destruct (P x).
Qed.

Lemma drop_while_nil P l : drop_while P l = [] → forallb P l = true.
Proof.
  induction l as [|x l IH]; simpl; [done|].
  destruct (P x); [exact IH|done].
Qed.

Lemma rstrip_nil P l : rstrip P l = [] → forallb P l = true.
Proof.
  unfold rstrip. intros Hrev.
  assert (drop_while P (rev l) = []) as Hdrop.
  { rewrite <- (rev_involutive (drop_while P (rev l))), Hrev. reflexivity. }
  apply drop_while_nil in Hdrop.
  apply forallb_forall. intros x Hx.
  rewrite forallb_forall in Hdrop. apply Hdrop. by apply in_rev in Hx.
Qed.

Lemma rstrip_head_kept P c t : P c = false → ∃ t', rstrip P (c :: t) = c :: t'.
Proof.
  intros Hc.
  destruct (rstrip_prefix P (c :: t)) as [k Hk].
  destruct (rstrip P (c :: t)) as [|x t'] eqn:Hr.
  - unfold rstrip in Hr. simpl in Hr.
    destruct (drop_while_last_kept P (rev t) c Hc).
    rewrite <- (rev_involutive (drop_while P (rev t ++ [c]))), Hr. reflexivity.
  - injection Hk as -> _. eauto.
Qed.

Lemma dirname_chars_head c t :
  is_sep c = true → ∃ t', dirname_chars (c :: t) = c :: t'.
Proof.
  intros Hc. unfold dirname_chars.
  destruct (rstrip_head_kept (λ x, negb (is_sep x)) c t) as [h Hh];
    [by rewrite Hc|].
  rewrite Hh. cbv zeta.
  destruct (forallb is_sep (c :: h)) eqn:Hall; [eauto|].
  destruct (rstrip_prefix is_sep (c :: h)) as [k Hk].
  destruct (rstrip is_sep (c :: h)) as [|x t'] eqn:Hr.
  - apply rstrip_nil in Hr. congruence.
  - injection Hk as -> _. eauto.
Qed.

(** The directory above an absolute path is an absolute path. *)
Lemma dirname_absolute p :
  starts_with_sep p = true → starts_with_sep (dirname p) = true.
Proof.
  destruct p as [|c t]; simpl; [done|]. intros Hc.
  unfold dirname. simpl.
  by destruct (dirname_chars_head c (list_ascii_of_string t) Hc) as [t' ->].
Qed.

Lemma ancestor_absolute n p :
  starts_with_sep p = true → starts_with_sep (ancestor n p) = true.
Proof.
  revert p. induction n as [|n IH]; intros p Hp; [done|].
  rewrite ancestor_S. by apply IH, dirname_absolute.
Qed.

End AbsolutePaths.

(** From an absolute starting directory, construction stores None or a
    path that is not empty. *)
Lemma init_root_not_empty
    (w : World) (arguments configuration : loc)
    (analysis_directory : AnalysisDirectory)
    (args : Namespace) (config : Configuration) :
  namespaces w !! arguments = Some args →
  configurations w !! configuration = Some config →
  Path.starts_with_sep (current_directory args) = true →
  ∃ self w' this,
    __init__ arguments configuration analysis_directory w = (Returned self, w') ∧
    monitors w' !! self = Some this ∧
    _watchman_path this ≠ Some "".
Proof.
  intros Ha Hc Habs.
  destruct (init_stores w arguments configuration analysis_directory args config Ha Hc)
    as (self & w' & this & r & Hinit & Hthis & _ & Hpath & Hnear).
  exists self, w', this. split_and!; [done|done|].
  rewrite Hpath. intros ->. destruct Hnear as (n & Hn & _).
  pose proof (ancestor_absolute n (current_directory args) Habs) as Hstart.
  by rewrite <- Hn in Hstart.
Qed.

(** ** The cache and its subscriber *)

Lemma computed_request_of this :
  py_not (_watchman_path this) = false →
  request_of this
    {| root := default "" (_watchman_path this);
       name := "pyre_file_change_subscription";
       subscription :=
         JDict [("expression", expression (_extensions this));
                ("fields", JList [JStr "name"])] |}.
Proof.
  intros Hnot. apply py_not_false in Hnot as (path & Hpath & _).
  exists path, (elements (_extensions this)).
  split_and!; [done|apply NoDup_elements| |by rewrite Hpath].
  intros e. apply elem_of_elements.
Qed.

Lemma Coherent_frame w w' :
  lru w' = lru w →
  lists w' = lists w →
  (∀ k m, monitors w !! k = Some m → monitors w' !! k = Some m) →
  Coherent w → Coherent w'.
Proof.
  intros Hlru Hlists Hmon Hw key result. rewrite Hlru, Hlists. intros Hentry.
  destruct (Hw key result Hentry) as (this & request & Hthis & Hl & Hreq).
  exists this, request. split_and!; [by apply Hmon|done|done].
Qed.

Lemma access_coherent self w : Coherent w → Coherent (snd (_subscriptions self w)).
Proof.
  intros Hw.
  destruct (access_case self w) as [r _|e _|this args _ _ _ _|this _ Hthis Hnot];
    simpl; try done.
  intros key result [= <- <-]. simpl.
  eexists this, _. split_and!; [done|apply lookup_insert_eq|].
  by apply computed_request_of.
Qed.

Lemma step_coherent s w :
  assigns_root s = false → Coherent w → Coherent (snd (step s w)).
Proof.
  intros Hs Hw.
  destruct s as [a c d|self|self|self response|self value|c value]; simpl;
    try done.
  - run. destruct (init_frame a c d w) as (Hlists & Hlru & _ & Hmon).
    assert (Coherent (snd (__init__ a c d w))) as Hinit
      by by apply (Coherent_frame w).
    by destruct (__init__ a c d w) as [[r| |] w'].
  - run. pose proof (access_coherent self w Hw) as Hacc.
    by destruct (_subscriptions self w) as [[r| |] w'].
Qed.

Lemma history_coherent steps w :
  forallb (λ s, negb (assigns_root s)) steps = true →
  Coherent w → Coherent (snd (run steps w)).
Proof.
  revert w. induction steps as [|s steps IH]; intros w Hsteps Hw; [done|].
  simpl in Hsteps. apply andb_prop in Hsteps as [Hs Hsteps].
  apply negb_true_iff in Hs.
  simpl. run. pose proof (step_coherent s w Hs Hw) as Hstep.
  destruct (step s w) as [[[]| |] w']; simpl in *; [by apply IH|done|done].
Qed.

Section CoherentAccess.
Variables (w : World) (self : loc) (this : ProjectFilesMonitor).
Hypothesis Hw : Coherent w.
Hypothesis Hthis : monitors w !! self = Some this.

(** With a root that the guard lets through, every access returns the
    request of the subscriber, from the cache or newly built. *)
Lemma access_of_present path :
  _watchman_path this = Some path →
  path ≠ "" →
  ∃ result w' request,
    _subscriptions self w = (Returned result, w') ∧
    log w' = log w ∧
    lists w' !! result = Some [request] ∧
    request_of this request.
Proof.
  intros Hpath Hne.
  assert (py_not (_watchman_path this) = false) as Hnot.
  { apply py_not_false. by exists path. }
  destruct (lru_lookup self w) as [result|] eqn:Hlook.
  - pose proof Hlook as Hentry%lru_lookup_Some.
    destruct (Hw self result Hentry) as (this' & request & Hthis' & Hl & Hreq).
    assert (this' = this) as -> by congruence.
    exists result, w, request. split_and!; try done.
    unfold _subscriptions. by apply lru_cache_hit.
  - eexists _, _, _.
    split; [by apply (subscriptions_returns w self this)|].
    split; [done|]. split; [simpl; apply lookup_insert_eq|].
    by apply computed_request_of.
Qed.

(** Without a root, no access is served from the cache. *)
Lemma access_of_absent args :
  _watchman_path this = None →
  namespaces w !! _arguments this = Some args →
  _subscriptions self w =
  (Exited 0, with_log (log w ++ [missing_root_record (current_directory args)]) w).
Proof.
  intros Hpath Hargs.
  assert (lru_lookup self w = None) as Hmiss.
  { destruct (lru_lookup self w) as [result|] eqn:Hlook; [|done].
    apply lru_lookup_Some in Hlook.
    destruct (Hw self result Hlook) as (this' & request & Hthis' & _ & Hreq).
    assert (this' = this) as -> by congruence.
    destruct Hreq as (path & watched & Hsome & _). congruence. }
  apply (subscriptions_exits w self this Hthis Hmiss args Hargs).
  by rewrite Hpath.
Qed.

End CoherentAccess.

(** C3. When a watch root is present, every access to the subscription
    list, computed or served from the cache, returns a list of one
    request: its root is the watch root, its name the subscription name,
    its expression is allof(type f, not empty, anyof(clauses)) where the
    clauses are one suffix clause for each watched extension and nothing
    more, and its fields are exactly ["name"].  A root is present when it
    is a path, that is a string that is not empty, as construction
    resolves it; the cache is the one the class itself has filled. *)
Theorem subscriptions_with_root
    (w : World) (self : loc) (this : ProjectFilesMonitor) (path : string) :
  Coherent w →
  monitors w !! self = Some this →
  _watchman_path this = Some path →
  path ≠ "" →
  ∃ result w' watched,
    _subscriptions self w = (Returned result, w') ∧
    lists w' !! result =
      Some [{| root := path;
               name := "pyre_file_change_subscription";
               subscription :=
                 JDict [("expression",
                         JList [JStr "allof";
                                JList [JStr "type"; JStr "f"];
                                JList [JStr "not"; JStr "empty"];
                                JList (JStr "anyof" ::
                                       map (λ e, JList [JStr "suffix"; JStr e]) watched)]);
                        ("fields", JList [JStr "name"])] |}] ∧
    NoDup watched ∧
    ∀ e, e ∈ watched ↔ e ∈ _extensions this.
Proof.
  intros Hw Hthis Hpath Hne.
  destruct (access_of_present w self this Hw Hthis path Hpath Hne)
    as (result & w' & request & Hret & _ & Hl & Hreq).
  destruct Hreq as (path' & watched & Hpath' & Hnodup & Hmem & ->).
  assert (path' = path) as -> by congruence.
  by exists result, w', watched.
Qed.

(** C9. An access to the subscription list logs the error and ends the
    process if and only if the stored watch root is absent; then it ends
    with status 0 after one record that names the starting directory.
    When a watch root is present the access returns, logs nothing and
    does not end the process.  The stored root is None or a path that is
    not empty, as construction resolves it, and the cache is the one the
    class itself has filled. *)
Theorem subscriptions_exit_iff
    (w : World) (self : loc) (this : ProjectFilesMonitor) (args : Namespace) :
  Coherent w →
  monitors w !! self = Some this →
  namespaces w !! _arguments this = Some args →
  _watchman_path this ≠ Some "" →
  ((∃ status w', _subscriptions self w = (Exited status, w'))
   ↔ _watchman_path this = None) ∧
  (_watchman_path this = None →
   _subscriptions self w =
   (Exited 0, with_log (log w ++ [missing_root_record (current_directory args)]) w)) ∧
  (∀ path, _watchman_path this = Some path →
           ∃ result w', _subscriptions self w = (Returned result, w') ∧ log w' = log w).
Proof.
  intros Hw Hthis Hargs Hne.
  assert (∀ path, _watchman_path this = Some path →
                  ∃ result w', _subscriptions self w = (Returned result, w') ∧
                               log w' = log w) as Hpresent.
  { intros path Hpath.
    assert (path ≠ "") as Hpne by congruence.
    destruct (access_of_present w self this Hw Hthis path Hpath Hpne)
      as (result & w' & _ & Hret & Hlog & _).
    by exists result, w'. }
  split_and!;
    [|intros Hnone; by apply (access_of_absent w self this Hw Hthis args)|done].
  split.
  - intros (status & w' & Hexit).
    destruct (_watchman_path this) as [path|] eqn:Hpath; [|done].
    destruct (Hpresent path eq_refl) as (result & w1 & Hret & _). congruence.
  - intros Hnone. eexists _, _.
    by apply (access_of_absent w self this Hw Hthis args).
Qed.

(** X9. A subscriber that has just been built is never served from the
    cache.  Its first access is decided by the watch root that construction
    stored: with None or the empty string it logs the directory that
    construction started from and leaves with status 0; otherwise it
    returns a new list whose request has that root and, in some order,
    one suffix clause for py, for pyi and for each extension of the
    configuration. *)
Theorem first_access_after_init
    (w : World) (arguments configuration : loc)
    (analysis_directory : AnalysisDirectory)
    (args : Namespace) (config : Configuration) :
  namespaces w !! arguments = Some args →
  configurations w !! configuration = Some config →
  (∀ key result, lru w = Some (key, result) → is_Some (monitors w !! key)) →
  ∃ self w1 this,
    __init__ arguments configuration analysis_directory w = (Returned self, w1) ∧
    monitors w1 !! self = Some this ∧
    lru_lookup self w1 = None ∧
    (py_not (_watchman_path this) = true →
     _subscriptions self w1 =
     (Exited 0,
      with_log (log w ++ [missing_root_record (current_directory args)]) w1)) ∧
    (py_not (_watchman_path this) = false →
     ∃ result w2 path watched,
       _subscriptions self w1 = (Returned result, w2) ∧
       _watchman_path this = Some path ∧
       lists w !! result = None ∧
       lists w2 !! result =
       Some [{| root := path;
                name := "pyre_file_change_subscription";
                subscription :=
                  JDict [("expression",
                          JList [JStr "allof";
                                 JList [JStr "type"; JStr "f"];
                                 JList [JStr "not"; JStr "empty"];
                                 JList (JStr "anyof" :: map suffix_clause watched)]);
                         ("fields", JList [JStr "name"])] |}] ∧
       NoDup watched ∧
       ∀ e, e ∈ watched ↔ e = "py" ∨ e = "pyi" ∨ e ∈ extensions config).
Proof.
  intros Ha Hc Hlive.
  destruct (init_result w arguments configuration analysis_directory args config Ha Hc)
    as (r & _ & Hinit).
  set (self := fresh (dom (monitors w))) in *.
  set (this := {| _arguments := arguments; _watchman_path := r |}) in *.
  set (w1 := with_monitors (<[self := this]> (monitors w)) w) in *.
  assert (monitors w1 !! self = Some this) as Hthis by apply lookup_insert_eq.
  assert (lru_lookup self w1 = None) as Hmiss.
  { destruct (lru_lookup self w1) as [result|] eqn:Hlook; [|done].
    apply lru_lookup_Some in Hlook. destruct (Hlive self result Hlook) as [m Hm].
    by destruct (fresh_lookup_ne (monitors w) self m Hm). }
  exists self, w1, this. split_and!; [done|done|done| |].
  - intros Hnot.
    by apply (subscriptions_exits w1 self this Hthis Hmiss args Ha Hnot).
  - intros Hnot.
    destruct (computed_request_of this Hnot)
      as (path & watched & Hpath & Hnodup & Hmem & Hreq).
    eexists _, _, path, watched.
    split; [by apply (subscriptions_returns w1 self this Hthis Hmiss Hnot)|].
    split; [done|]. split; [apply not_elem_of_dom, is_fresh|].
    split.
    { etrans; [apply lookup_insert_eq|].
      exact (f_equal (λ request, Some [request]) Hreq). }
    split; [done|].
    intros e. rewrite Hmem.
    change (_extensions this)
      with (list_to_set (["py"; "pyi"] ++ extensions config)%list : gset string).
    rewrite elem_of_list_to_set, elem_of_app, !elem_of_cons, elem_of_nil. tauto.
Qed.

(** X12. Through every history in which no step writes the watch root
    of a subscriber from outside the class, the cache entry (when there is
    one) is the list of one request that belongs to its subscriber as the
    subscriber is now: bound to its watch root and, in some order, with
    one suffix clause for each of its extensions. *)
Theorem run_coherent (steps : list Step) (w : World) :
  Coherent w →
  forallb (λ s, negb (assigns_root s)) steps = true →
  Coherent (snd (run steps w)).
Proof. intros Hw Hsteps. by apply history_coherent. Qed.

(** ** Instances, continued *)

(** C3 at a subscriber whose list is in the cache. *)
Lemma subscriptions_with_root_sample :
  ∃ result w' watched,
    _subscriptions 0 after_first = (Returned result, w') ∧
    lists w' !! result =
      Some [{| root := "/home/user";
               name := "pyre_file_change_subscription";
               subscription :=
                 JDict [("expression",
                         JList [JStr "allof";
                                JList [JStr "type"; JStr "f"];
                                JList [JStr "not"; JStr "empty"];
                                JList (JStr "anyof" ::
                                       map (λ e, JList [JStr "suffix"; JStr e]) watched)]);
                        ("fields", JList [JStr "name"])] |}] ∧
    NoDup watched ∧
    ∀ e, e ∈ watched ↔ e ∈ ({[ "py"; "pyi"; "thrift" ]} : gset string).
Proof.
  apply (subscriptions_with_root after_first 0
           (sample_monitor (Some "/home/user")) "/home/user");
    [ | reflexivity | reflexivity | discriminate].
  intros key result Hentry. vm_compute in Hentry. injection Hentry as <- <-.
  exists (sample_monitor (Some "/home/user")).
  eexists. split; [reflexivity|]. split; [vm_compute; reflexivity|].
  exists "/home/user", ["thrift"; "pyi"; "py"].
  split; [reflexivity|].
  split; [apply (bool_decide_unpack _); vm_compute; exact I|].
  split; [|reflexivity].
  intros e. simpl. rewrite !elem_of_cons, !elem_of_union, !elem_of_singleton.
  rewrite elem_of_nil. tauto.
Defined.

(** C9 at a subscriber without watch root. *)
Lemma subscriptions_exit_iff_sample :
  ((∃ status w', _subscriptions 0 (process_with None) = (Exited status, w'))
   ↔ (None : option string) = None) ∧
  ((None : option string) = None →
   _subscriptions 0 (process_with None) =
   (Exited 0,
    with_log (log (process_with None) ++
              [missing_root_record "/home/user/project/src"]) (process_with None))) ∧
  (∀ path : string, None = Some path →
           ∃ result w',
             _subscriptions 0 (process_with None) = (Returned result, w') ∧
             log w' = log (process_with None)).
Proof.
  apply (subscriptions_exit_iff (process_with None) 0 (sample_monitor None)
           sample_arguments);
    [ | reflexivity | reflexivity | discriminate].
  intros key result Hentry. discriminate Hentry.
Defined.

(** X9 at the sample process, where the marker is two directories up. *)
Lemma first_access_after_init_sample :
  ∃ self w1 this,
    __init__ 0 0 sample_directory sample_process = (Returned self, w1) ∧
    monitors w1 !! self = Some this ∧
    lru_lookup self w1 = None ∧
    (py_not (_watchman_path this) = true →
     _subscriptions self w1 =
     (Exited 0,
      with_log (log sample_process ++ [missing_root_record "/home/user/project/src"])
        w1)) ∧
    (py_not (_watchman_path this) = false →
     ∃ result w2 path watched,
       _subscriptions self w1 = (Returned result, w2) ∧
       _watchman_path this = Some path ∧
       lists sample_process !! result = None ∧
       lists w2 !! result =
       Some [{| root := path;
                name := "pyre_file_change_subscription";
                subscription :=
                  JDict [("expression",
                          JList [JStr "allof";
                                 JList [JStr "type"; JStr "f"];
                                 JList [JStr "not"; JStr "empty"];
                                 JList (JStr "anyof" :: map suffix_clause watched)]);
                         ("fields", JList [JStr "name"])] |}] ∧
       NoDup watched ∧
       ∀ e, e ∈ watched ↔ e = "py" ∨ e = "pyi" ∨ e ∈ ["thrift"; "py"; "thrift"]).
Proof.
  apply (first_access_after_init sample_process 0 0 sample_directory
           sample_arguments sample_configuration);
    [reflexivity | reflexivity |].
  intros key result Hentry. discriminate Hentry.
Defined.

(** X12 along a history that builds a subscriber, reads its list twice
    and changes the configuration in between. *)
Lemma run_coherent_sample :
  Coherent
    (snd (run [Construct 0 0 sample_directory; ReadSubscriptions 0;
               AssignExtensions 0 ["cfg"]; ReadSubscriptions 0]
            sample_process)).
Proof.
  apply (run_coherent
           [Construct 0 0 sample_directory; ReadSubscriptions 0;
            AssignExtensions 0 ["cfg"]; ReadSubscriptions 0]
           sample_process); [|reflexivity].
  intros key result Hentry. discriminate Hentry.
Defined.
